(** * The editable selection group of the map editor's 3D viewport

    Shallow embedding of
    [amulet_map_editor/opengl/mesh/selection/render_selection_group_editable.py]
    (class [RenderSelectionGroupEditable]) and the properties of its
    active-box life cycle and of its ray picking.

    The object's attributes are the fields of one record; a method is a
    computation in a state-and-exception monad, because a Python method that
    raises keeps the assignments it made before the raise. *)

From Stdlib Require Import QArith Lqa.
From stdpp Require Import base decidable option numbers list.

Set Default Proof Using "Type".

Open Scope Z_scope.

(** ** Coordinates *)

(** [BlockCoordinatesAny]: an integer voxel position, as a caller hands it
    over: three Python integers, of any size.  What the group stores in its
    cursor array has to fit the array's element type; see
    [update_cursor_position]. *)
Definition BlockCoordinates : Type := Z * Z * Z.

(** [PointCoordinatesAny]: a position or a direction of the camera ray.  The
    components are floating point numbers in the source; only finite values
    are considered, which are rationals. *)
Definition PointCoordinates : Type := Q * Q * Q.

Close Scope Z_scope.

(** ** The selection boxes the group is made of *)

(** A committed box.  The class [RenderSelection] is imported by the source
    file; the group only reads and writes its two corners, calls [unload] on
    it and asks it for a ray intersection. *)
Module RenderSelection.
Record t : Type := mk { point1 : BlockCoordinates; point2 : BlockCoordinates }.

(** [box.point1, box.point2 = p1, p2] *)
Definition set_points (p1 p2 : BlockCoordinates) (_ : t) : t :=
  {| point1 := p1; point2 := p2 |}.
End RenderSelection.

(** Modelled from the spec: the class [RenderSelectionEditable] is imported by
    the source file and its body is not part of it.  The active box "wraps a
    box in one of two sub-states -- dynamic (still being drawn/resized) or
    static (fixed corners)"; [lock()] makes it static, [unlock(point)] makes
    it dynamic, and [is_static] and [is_dynamic] are each other's negation. *)
Module RenderSelectionEditable.
Record t : Type := mk {
  point1 : BlockCoordinates;
  point2 : BlockCoordinates;
  is_dynamic : bool
}.

Definition is_static (b : t) : bool := negb (is_dynamic b).

(** [box.point1, box.point2 = p1, p2]: the corners are stored by value. *)
Definition set_points (p1 p2 : BlockCoordinates) (b : t) : t :=
  {| point1 := p1; point2 := p2; is_dynamic := is_dynamic b |}.

Definition lock (b : t) : t :=
  {| point1 := point1 b; point2 := point2 b; is_dynamic := false |}.
End RenderSelectionEditable.

Abbreviation RSel := RenderSelection.t.
Abbreviation RSelEd := RenderSelectionEditable.t.

(** What the imported modules compute and the source file never looks into:
    the intersection of a box with a ray, the corners a box has right after
    its construction, what [unlock] and [set_active_point] do to the two
    corners of the active box (given whether it is dynamic), and the number
    of bits of the element type of [numpy.array(..., dtype=numpy.int)], the
    platform's C [long]. *)
Class Collaborator : Type := {
  int_bits : Z;
  intersects_vector : RSel → PointCoordinates → PointCoordinates → option Q;
  new_points : BlockCoordinates * BlockCoordinates;
  unlock_points :
    BlockCoordinates → BlockCoordinates * BlockCoordinates →
    BlockCoordinates * BlockCoordinates;
  active_point_points :
    bool → BlockCoordinates → BlockCoordinates * BlockCoordinates →
    BlockCoordinates * BlockCoordinates
}.

(** ** The state of a [RenderSelectionGroupEditable] *)

(** [_boxes] is the list inherited from [RenderSelectionGroup].  [unloaded]
    is not an attribute: it records, in call order, the boxes on which
    [unload()] was called.  The three indices are positions in [_boxes], as
    [enumerate] and [len] produce them, hence natural numbers: a negative
    [int], which Python would count from the end of the list, is not
    considered. *)
Record RenderSelectionGroupEditable : Type := mkGroup {
  _boxes : list RSel;
  _editable : bool;
  _active_box : option RSelEd;
  _active_box_index : option nat;
  _last_active_box_index : option nat;
  _hover_box_index : option nat;
  _cursor_position : BlockCoordinates;
  unloaded : list RSel
}.

Abbreviation Group := RenderSelectionGroupEditable.

Definition with_boxes (v : list RSel) (s : Group) : Group :=
  mkGroup v (_editable s) (_active_box s) (_active_box_index s)
    (_last_active_box_index s) (_hover_box_index s) (_cursor_position s)
    (unloaded s).
Definition with_editable (v : bool) (s : Group) : Group :=
  mkGroup (_boxes s) v (_active_box s) (_active_box_index s)
    (_last_active_box_index s) (_hover_box_index s) (_cursor_position s)
    (unloaded s).
Definition with_active_box (v : option RSelEd) (s : Group) : Group :=
  mkGroup (_boxes s) (_editable s) v (_active_box_index s)
    (_last_active_box_index s) (_hover_box_index s) (_cursor_position s)
    (unloaded s).
Definition with_active_box_index (v : option nat) (s : Group) : Group :=
  mkGroup (_boxes s) (_editable s) (_active_box s) v
    (_last_active_box_index s) (_hover_box_index s) (_cursor_position s)
    (unloaded s).
Definition with_last_active_box_index (v : option nat) (s : Group) : Group :=
  mkGroup (_boxes s) (_editable s) (_active_box s) (_active_box_index s)
    v (_hover_box_index s) (_cursor_position s) (unloaded s).
Definition with_hover_box_index (v : option nat) (s : Group) : Group :=
  mkGroup (_boxes s) (_editable s) (_active_box s) (_active_box_index s)
    (_last_active_box_index s) v (_cursor_position s) (unloaded s).
Definition with_cursor_position (v : BlockCoordinates) (s : Group) : Group :=
  mkGroup (_boxes s) (_editable s) (_active_box s) (_active_box_index s)
    (_last_active_box_index s) (_hover_box_index s) v (unloaded s).
Definition with_unloaded (v : list RSel) (s : Group) : Group :=
  mkGroup (_boxes s) (_editable s) (_active_box s) (_active_box_index s)
    (_last_active_box_index s) (_hover_box_index s) (_cursor_position s) v.

(** [__init__]: editable, no active box, no index, cursor at the origin; the
    inherited list of committed boxes starts empty. *)
Definition init : Group :=
  mkGroup [] true None None None None (0, 0, 0)%Z [].

(** ** Methods as computations *)

Inductive Exn : Type := IndexError | AttributeError | OverflowError.

Inductive Outcome (A : Type) : Type :=
| Return (a : A)
| Raise (e : Exn).
Arguments Return {A} a.
Arguments Raise {A} e.

(** A method body: from the object before the call to what the call does
    (returns or raises) and the object after it. *)
Definition M (A : Type) : Type := Group → Outcome A * Group.

Definition ret {A} (a : A) : M A := λ s, (Return a, s).
Definition raise {A} (e : Exn) : M A := λ s, (Raise e, s).
Definition bind {A B} (m : M A) (k : A → M B) : M B :=
  λ s, match m s with
       | (Return a, s') => k a s'
       | (Raise e, s') => (Raise e, s')
       end.
Definition gets {A} (f : Group → A) : M A := λ s, (Return (f s), s).
Definition modify (f : Group → Group) : M unit := λ s, (Return (), f s).

Declare Scope method_scope.
Delimit Scope method_scope with method.
Notation "x <- m ;; k" := (bind m (λ x, k))
  (at level 100, m at next level, k at level 200, right associativity)
  : method_scope.
Notation "m ;; k" := (bind m (λ _, k))
  (at level 100, k at level 200, right associativity) : method_scope.
Open Scope method_scope.

(** The state a call leaves and whether it returned. *)
Definition state_after {A} (r : Outcome A * Group) : Group := r.2.
Definition returns {A} (r : Outcome A * Group) : Prop := ∃ a, r.1 = Return a.

Section Methods.
Context {collab : Collaborator}.

(** *** Primitive statements *)

(** [self._boxes[index]], which raises [IndexError] out of range. *)
Definition boxes_getitem (index : nat) : M RSel :=
  boxes <- gets _boxes ;;
  match boxes !! index with
  | Some box => ret box
  | None => raise IndexError
  end.

(** [self._boxes.pop(index)], which raises [IndexError] out of range. *)
Definition boxes_pop_at (index : nat) : M RSel :=
  boxes <- gets _boxes ;;
  match boxes !! index with
  | Some box => modify (with_boxes (delete index boxes)) ;; ret box
  | None => raise IndexError
  end.

(** [self._boxes.pop()], which raises [IndexError] on an empty list. *)
Definition boxes_pop : M RSel :=
  boxes <- gets _boxes ;;
  match last boxes with
  | Some box => modify (with_boxes (removelast boxes)) ;; ret box
  | None => raise IndexError
  end.

(** [box.unload()] *)
Definition unload (box : RSel) : M unit :=
  modify (λ s, with_unloaded (unloaded s ++ [box]) s).

(** A method call or an attribute assignment on [self._active_box], which
    raises [AttributeError] when it is [None]. *)
Definition on_active_box (f : RSelEd → RSelEd) : M unit :=
  active <- gets _active_box ;;
  match active with
  | Some a => modify (with_active_box (Some (f a)))
  | None => raise AttributeError
  end.

(** An attribute assignment on the box [self._boxes[index]]: the box is the
    list's own element, so the list sees the assignment. *)
Definition on_box (index : nat) (f : RSel → RSel) : M unit :=
  box <- boxes_getitem index ;;
  modify (λ s, with_boxes (<[index := f box]> (_boxes s)) s).

(** *** The collaborators' methods on the active box *)

Definition unlock (position : BlockCoordinates) (b : RSelEd) : RSelEd :=
  let p := unlock_points position
             (RenderSelectionEditable.point1 b, RenderSelectionEditable.point2 b) in
  RenderSelectionEditable.mk p.1 p.2 true.

Definition set_active_point (position : BlockCoordinates) (b : RSelEd) : RSelEd :=
  let p := active_point_points (RenderSelectionEditable.is_dynamic b) position
             (RenderSelectionEditable.point1 b, RenderSelectionEditable.point2 b) in
  RenderSelectionEditable.mk p.1 p.2 (RenderSelectionEditable.is_dynamic b).

(** *** The methods of the class *)

(** A box is dynamic when it is constructed: [_create_active_box] has to
    [lock()] the one it wants static. *)
Definition _new_editable_render_selection : RSelEd :=
  RenderSelectionEditable.mk new_points.1 new_points.2 true.

(** Inherited from [RenderSelectionGroup]. *)
Definition _new_render_selection : RSel :=
  RenderSelection.mk new_points.1 new_points.2.

Definition _create_active_box_from_cursor : M unit :=
  modify (with_active_box (Some _new_editable_render_selection)) ;;
  index <- gets _active_box_index ;;
  modify (with_last_active_box_index index) ;;
  cursor <- gets _cursor_position ;;
  on_active_box (RenderSelectionEditable.set_points cursor cursor) ;;
  modify (with_active_box_index None).

Definition _create_active_box : M unit :=
  modify (with_active_box (Some _new_editable_render_selection)) ;;
  index <- gets _active_box_index ;;
  modify (with_last_active_box_index index) ;;
  match index with
  | None =>
      cursor <- gets _cursor_position ;;
      on_active_box (RenderSelectionEditable.set_points cursor cursor) ;;
      modify (with_active_box_index None)
  | Some i =>
      active_box <- boxes_getitem i ;;
      on_active_box
        (RenderSelectionEditable.set_points
           (RenderSelection.point1 active_box)
           (RenderSelection.point2 active_box)) ;;
      on_active_box RenderSelectionEditable.lock
  end.

(** The setter of the property [editable]. *)
Definition set_editable (editable : bool) : M unit :=
  modify (with_editable editable) ;;
  index <- gets _active_box_index ;;
  if editable && bool_decide (index ≠ None)
  then _create_active_box
  else modify (with_active_box None).

(** [while self._boxes: box = self._boxes.pop(); box.unload()], run for at
    most [fuel] rounds. *)
Fixpoint deselect_all_loop (fuel : nat) : M unit :=
  match fuel with
  | O => ret ()
  | S fuel' =>
      boxes <- gets _boxes ;;
      match boxes with
      | [] => ret ()
      | _ :: _ =>
          box <- boxes_pop ;;
          unload box ;;
          deselect_all_loop fuel'
      end
  end.

Definition deselect_all : M unit :=
  boxes <- gets _boxes ;;
  deselect_all_loop (length boxes) ;;
  modify (with_active_box None) ;;
  modify (with_active_box_index None) ;;
  modify (with_last_active_box_index None).

Definition deselect_active : M unit :=
  index <- gets _active_box_index ;;
  match index with
  | Some i =>
      box <- boxes_pop_at i ;;
      unload box ;;
      boxes <- gets _boxes ;;
      match boxes with
      | _ :: _ =>
          (if bool_decide (1 ≤ i)
           then modify (with_active_box_index (Some (i - 1)))
           else ret ()) ;;
          _create_active_box
      | [] =>
          modify (with_active_box None) ;;
          modify (with_active_box_index None) ;;
          modify (with_last_active_box_index None)
      end
  | None =>
      active <- gets _active_box ;;
      last_index <- gets _last_active_box_index ;;
      match active, last_index with
      | Some a, Some _ =>
          if RenderSelectionEditable.is_dynamic a
          then modify (with_active_box_index last_index)
          else ret ()
      | _, _ => ret ()
      end
  end.

(** An integer the elements of the cursor array can hold. *)
Definition fits_int (x : Z) : bool :=
  ((- 2 ^ (int_bits - 1) <=? x) && (x <? 2 ^ (int_bits - 1)))%Z.

Definition position_fits (position : BlockCoordinates) : bool :=
  fits_int position.1.1 && fits_int position.1.2 && fits_int position.2.

(** [self._cursor_position[:] = position] writes into the integer array made
    by [__init__]: numpy converts the whole of [position] first and raises
    [OverflowError] when a component does not fit, writing nothing.
    [if self._active_box:] is the test [is not None]: the box classes are
    plain objects. *)
Definition update_cursor_position
    (position : BlockCoordinates) (box_index : option nat) : M unit :=
  (if position_fits position
   then modify (with_cursor_position position)
   else raise OverflowError) ;;
  modify (with_hover_box_index box_index) ;;
  active <- gets _active_box ;;
  match active with
  | Some _ => on_active_box (set_active_point position)
  | None => ret ()
  end.

Definition _box_select_disable : M unit :=
  on_active_box RenderSelectionEditable.lock ;;
  index <- gets _active_box_index ;;
  index <- match index with
           | None =>
               boxes <- gets _boxes ;;
               modify (with_active_box_index (Some (length boxes))) ;;
               modify (with_boxes (boxes ++ [_new_render_selection])) ;;
               ret (length boxes)
           | Some i => boxes_getitem i ;; ret i
           end ;;
  active <- gets _active_box ;;
  match active with
  | Some a =>
      on_box index
        (RenderSelection.set_points
           (RenderSelectionEditable.point1 a)
           (RenderSelectionEditable.point2 a))
  | None => raise AttributeError
  end.

Definition box_select_disable : M unit :=
  active <- gets _active_box ;;
  match active with
  | Some a =>
      if RenderSelectionEditable.is_dynamic a
      then _box_select_disable
      else ret ()
  | None => ret ()
  end.

Definition box_select_toggle (add_modifier : bool)
    : M (option BlockCoordinates) :=
  active <- gets _active_box ;;
  match active with
  | None => _create_active_box_from_cursor ;; ret None
  | Some a =>
      if RenderSelectionEditable.is_static a then
        hover <- gets _hover_box_index ;;
        index <- gets _active_box_index ;;
        if bool_decide (hover = index) then
          cursor <- gets _cursor_position ;;
          on_active_box (unlock cursor) ;;
          modify (with_last_active_box_index index) ;;
          ret (Some cursor)
        else if bool_decide (hover ≠ None) then
          modify (with_active_box_index hover) ;;
          _create_active_box ;;
          ret None
        else
          (if negb add_modifier then deselect_all else ret ()) ;;
          _create_active_box_from_cursor ;;
          ret None
      else
        _box_select_disable ;; ret None
  end.
End Methods.

(** ** The operations a caller has, and the index invariant *)

(** The public methods that change the object ([draw] and
    [closest_intersection] only read it).  A method without a [return]
    statement returns [None]. *)
Inductive Op : Type :=
| SetEditable (editable : bool)
| DeselectAll
| DeselectActive
| UpdateCursorPosition (position : BlockCoordinates) (box_index : option nat)
| BoxSelectDisable
| BoxSelectToggle (add_modifier : bool).

Section Operations.
Context {collab : Collaborator}.

Definition run_op (op : Op) : M (option BlockCoordinates) :=
  match op with
  | SetEditable editable => set_editable editable ;; ret None
  | DeselectAll => deselect_all ;; ret None
  | DeselectActive => deselect_active ;; ret None
  | UpdateCursorPosition position box_index =>
      update_cursor_position position box_index ;; ret None
  | BoxSelectDisable => box_select_disable ;; ret None
  | BoxSelectToggle add_modifier => box_select_toggle add_modifier
  end.

(** The position handed to [update_cursor_position] fits the cursor array;
    the other methods take no position. *)
Definition op_fits (op : Op) : bool :=
  match op with
  | UpdateCursorPosition position _ => position_fits position
  | _ => true
  end.

(** The object after a sequence of calls; a caller that catches an exception
    goes on with the object as the raise left it. *)
Definition run_ops (ops : list Op) (s : Group) : Group :=
  foldl (λ s op, state_after (run_op op s)) s ops.
End Operations.

(** An optional index is [None] or a position of [_boxes]. *)
Definition index_ok (s : Group) (index : option nat) : Prop :=
  match index with
  | Some i => i < length (_boxes s)
  | None => True
  end.

(** The invariant of the data model. *)
Definition indices_ok (s : Group) : Prop :=
  index_ok s (_active_box_index s) ∧ index_ok s (_last_active_box_index s).

(** The hover index the object holds is [None] or a position of [_boxes]. *)
Definition hover_ok (s : Group) : Prop := index_ok s (_hover_box_index s).

Section Traces.
Context {collab : Collaborator}.

(** Every hover index handed to [update_cursor_position] in the course of
    [ops] is [None] or a position of [_boxes] at the time of that call. *)
Fixpoint supplied_hover_ok (ops : list Op) (s : Group) : Prop :=
  match ops with
  | [] => True
  | op :: ops' =>
      match op with
      | UpdateCursorPosition _ box_index => index_ok s box_index
      | _ => True
      end
      ∧ supplied_hover_ok ops' (state_after (run_op op s))
  end.

(** The hover index the object holds is [None] or a position of [_boxes]
    each time a method of [ops] is called. *)
Fixpoint hover_ok_along (ops : list Op) (s : Group) : Prop :=
  match ops with
  | [] => True
  | op :: ops' => hover_ok s ∧ hover_ok_along ops' (state_after (run_op op s))
  end.

End Traces.

(** [box_select_toggle] is in the branch that unlocks the active box: there
    is an active box, it is static, and the hover index is the active one. *)
Definition resumes_resizing (s : Group) : bool :=
  match _active_box s with
  | Some a =>
      RenderSelectionEditable.is_static a
      && bool_decide (_hover_box_index s = _active_box_index s)
  | None => false
  end.

(** ** Ray picking *)

Section Picking.
Context {collab : Collaborator}.

(** The local variables of [closest_intersection]; [cast] is not one of
    them: it records, in loop order, the indices of the boxes whose
    [intersects_vector] was called. *)
Record Closest : Type := mkClosest {
  multiplier : Q;
  index_return : option nat;
  box_return : option RSel;
  cast : list nat
}.

(** The guard of the loop body:
    [not self.editable or self._active_box is None
     or self._active_box.is_static or index != self._active_box_index]. *)
Definition casts_box (s : Group) (index : nat) : bool :=
  negb (_editable s)
  || match _active_box s with
     | None => true
     | Some a => RenderSelectionEditable.is_static a
     end
  || bool_decide (Some index ≠ _active_box_index s).

(** One round of the loop. *)
Definition closest_body (s : Group) (origin vector : PointCoordinates)
    (index : nat) (box : RSel) (acc : Closest) : Closest :=
  if casts_box s index then
    match intersects_vector box origin vector with
    | Some mult =>
        if Qlt_le_dec mult (multiplier acc)
        then mkClosest mult (Some index) (Some box) (cast acc ++ [index])
        else mkClosest (multiplier acc) (index_return acc) (box_return acc)
               (cast acc ++ [index])
    | None =>
        mkClosest (multiplier acc) (index_return acc) (box_return acc)
          (cast acc ++ [index])
    end
  else acc.

(** [for index, box in enumerate(self._boxes)], from position [index] on. *)
Fixpoint closest_loop (s : Group) (origin vector : PointCoordinates)
    (index : nat) (boxes : list RSel) (acc : Closest) : Closest :=
  match boxes with
  | [] => acc
  | box :: rest =>
      closest_loop s origin vector (S index) rest
        (closest_body s origin vector index box acc)
  end.

Definition closest_start : Closest := mkClosest 999999999 None None [].

Definition closest_run (s : Group) (origin vector : PointCoordinates)
    : Closest :=
  closest_loop s origin vector 0 (_boxes s) closest_start.

Definition closest_intersection (s : Group)
    (origin vector : PointCoordinates) : option nat * option RSel :=
  let r := closest_run s origin vector in (index_return r, box_return r).

(** The boxes [closest_intersection] casts the ray against. *)
Definition cast_indices (s : Group) (origin vector : PointCoordinates)
    : list nat :=
  cast (closest_run s origin vector).

(** Box [b] sits at position [i], the loop casts the ray against it, and
    the ray meets it at distance [d]. *)
Definition hit (s : Group) (origin vector : PointCoordinates)
    (i : nat) (b : RSel) (d : Q) : Prop :=
  _boxes s !! i = Some b ∧ casts_box s i = true
  ∧ intersects_vector b origin vector = Some d.

(** The rule the specification words: the box at the active index is left
    out when the group is editable and the active box is static. *)
Definition skipped_as_specified (s : Group) (index : nat) : bool :=
  _editable s
  && match _active_box s with
     | None => false
     | Some a => RenderSelectionEditable.is_static a
     end
  && bool_decide (Some index = _active_box_index s).

(** What holds of the local variables once the boxes before position [n]
    have been gone through. *)
Definition closest_inv (s : Group) (origin vector : PointCoordinates)
    (n : nat) (acc : Closest) : Prop :=
  match index_return acc with
  | None =>
      box_return acc = None ∧ multiplier acc = 999999999%Q
      ∧ ∀ j b d, j < n → hit s origin vector j b d → (999999999 <= d)%Q
  | Some i =>
      ∃ b, box_return acc = Some b ∧ i < n
        ∧ hit s origin vector i b (multiplier acc)
        ∧ (multiplier acc < 999999999)%Q
        ∧ (∀ j b' d, j < n → hit s origin vector j b' d →
             (multiplier acc <= d)%Q)
        ∧ (∀ j b' d, j < i → hit s origin vector j b' d →
             (multiplier acc < d)%Q)
  end.
End Picking.

(** ** Drawing *)

(** A call of [draw] on a committed box (with its position in the list) or
    on the active box.  [draw] hands its two arguments, the transformation
    matrix and the camera position, unchanged to every such call; they are
    left out. *)
Inductive DrawCall : Type :=
| DrawCommitted (index : nat) (box : RSel)
| DrawActive (box : RSelEd).

(** The guard of the loop of [draw]:
    [not self.editable or index != self._active_box_index]. *)
Definition draws_box (s : Group) (index : nat) : bool :=
  negb (_editable s) || bool_decide (Some index ≠ _active_box_index s).

(** [for index, box in enumerate(self._boxes)], from position [index] on. *)
Fixpoint draw_loop (s : Group) (index : nat) (boxes : list RSel)
    : list DrawCall :=
  match boxes with
  | [] => []
  | box :: rest =>
      (if draws_box s index then [DrawCommitted index box] else [])
      ++ draw_loop s (S index) rest
  end.

(** The calls [draw] makes, in order. *)
Definition draw (s : Group) : list DrawCall :=
  draw_loop s 0 (_boxes s)
  ++ match _active_box s with
     | Some a => [DrawActive a]
     | None => []
     end.

(** ** What the methods keep between the active box and the indices *)

(** A static active box has an active index, and an editable group with an
    active index has an active box. *)
Definition active_consistent (s : Group) : Prop :=
  (∀ a, _active_box s = Some a →
        RenderSelectionEditable.is_static a = true →
        _active_box_index s ≠ None)
  ∧ (_editable s = true → _active_box_index s ≠ None → _active_box s ≠ None).

(** A static active box has the corners of the committed box at the active
    index. *)
Definition static_mirrors_committed (s : Group) : Prop :=
  ∀ a i, _active_box s = Some a →
         RenderSelectionEditable.is_static a = true →
         _active_box_index s = Some i →
         ∃ b, _boxes s !! i = Some b
              ∧ RenderSelection.point1 b = RenderSelectionEditable.point1 a
              ∧ RenderSelection.point2 b = RenderSelectionEditable.point2 a.

(** [set_active_point] leaves the corners of a static box where they are. *)
Definition static_corners_fixed (collab : Collaborator) : Prop :=
  ∀ position p, active_point_points false position p = p.

Section Repeated.
Context {collab : Collaborator}.

(** [n] calls of [deselect_active] in a row. *)
Fixpoint deselect_active_times (n : nat) (s : Group) : Group :=
  match n with
  | O => s
  | S n' => deselect_active_times n' (state_after (deselect_active s))
  end.
End Repeated.

(** ** A collaborator to run the methods with *)

(** A box is hit at the distance given by the first coordinate of its first
    corner, and missed when that is negative; a constructed box sits at the
    origin; [unlock] keeps the corners; [set_active_point] moves the second
    corner of a dynamic box; the cursor array holds 64-bit integers. *)
Definition sample_intersects (box : RSel) (_ _ : PointCoordinates) : option Q :=
  let x := (RenderSelection.point1 box).1.1 in
  if (x <? 0)%Z then None else Some (inject_Z x).

Definition sample : Collaborator := {|
  int_bits := 64;
  intersects_vector := sample_intersects;
  new_points := ((0, 0, 0)%Z, (0, 0, 0)%Z);
  unlock_points := λ _ p, p;
  active_point_points := λ dyn position p, if dyn then (p.1, position) else p
|}.

Definition ray0 : PointCoordinates := (0, 0, 0)%Q.

Definition bx (x : Z) : RSel := RenderSelection.mk (x, 0, 0)%Z (x, 1, 1)%Z.

(** Two committed boxes, the second one active: unlocked and being resized
    in [picking_dynamic], locked in [picking_static]. *)
Definition picking_dynamic : Group :=
  mkGroup [bx 1; bx 2] true
    (Some (RenderSelectionEditable.mk (2, 0, 0)%Z (2, 1, 1)%Z true))
    (Some 1) (Some 1) (Some 1) (0, 0, 0)%Z [].

Definition picking_static : Group :=
  mkGroup [bx 1; bx 2] true
    (Some (RenderSelectionEditable.mk (2, 0, 0)%Z (2, 1, 1)%Z false))
    (Some 1) (Some 1) (Some 1) (0, 0, 0)%Z [].

(** One committed box, and a second box being drawn: the active box is
    dynamic and not committed yet, so there is no active index. *)
Definition creating_first : Group :=
  mkGroup [bx 1] true
    (Some (RenderSelectionEditable.mk (4, 0, 0)%Z (6, 2, 1)%Z true))
    None (Some 0) None (6, 2, 1)%Z [].

(** One committed box, which the sample ray meets at distance 999999999. *)
Definition picking_far : Group :=
  mkGroup [bx 999999999] true None None None None (0, 0, 0)%Z [].

(** Three committed boxes at distances 5, 3 and 3, and one the ray misses. *)
Definition picking_tie : Group :=
  mkGroup [bx 5; bx 3; bx 3; bx (-1)] true None None None None (0, 0, 0)%Z [].

(** Commit one box, add and commit a second one, hover over the second one,
    deselect it, and toggle without moving the cursor: the hover index was a
    position of the list when it was supplied and is not any more. *)
Definition stale_hover_prefix : list Op :=
  [ BoxSelectToggle false; BoxSelectToggle false;
    BoxSelectToggle true; BoxSelectToggle false;
    UpdateCursorPosition (0, 0, 0)%Z (Some 1);
    DeselectActive ].

Definition stale_hover_trace : list Op :=
  stale_hover_prefix ++ [BoxSelectToggle false].

Definition stale_hover : Group := run_ops (collab := sample) stale_hover_prefix init.

(** * Properties *)

(** ** Ray picking *)

Section PickingFacts.
Context {collab : Collaborator}.
Implicit Types (s : Group) (origin vector : PointCoordinates).

Lemma casts_box_false s index :
  casts_box s index = false ↔
  _editable s = true
  ∧ (∃ a, _active_box s = Some a ∧ RenderSelectionEditable.is_dynamic a = true)
  ∧ _active_box_index s = Some index.
Proof.
  unfold casts_box, RenderSelectionEditable.is_static.
  destruct (_editable s), (_active_box s) as [[p1 p2 []]|]; simpl;
    try case_bool_decide; (split; [intros E|intros (He & (a & Ha & Hd) & Hi)]);
    try discriminate; try congruence.
  - split_and!; [done|by eexists|].
    destruct (_active_box_index s) as [i|]; [|done].
    destruct (decide (index = i)); congruence.
  - injection Ha as <-. discriminate.
Qed.

Lemma filter_all (P : nat → bool) (l : list nat) :
  (∀ x, P x = true) → filter (λ x, P x) l = l.
Proof.
  intros HP. induction l as [|x l IH]; [done|].
  rewrite filter_cons, IH, HP. done.
Qed.

Lemma cast_closest_body s origin vector index box acc :
  cast (closest_body s origin vector index box acc)
  = cast acc ++ (if casts_box s index then [index] else []).
Proof.
  unfold closest_body. destruct (casts_box s index).
  - destruct (intersects_vector _ _ _); [destruct (Qlt_le_dec _ _)|]; done.
  - by rewrite app_nil_r.
Qed.

Lemma cast_closest_loop s origin vector boxes : ∀ index acc,
  cast (closest_loop s origin vector index boxes acc)
  = cast acc ++ filter (λ i, casts_box s i) (seq index (length boxes)).
Proof.
  induction boxes as [|box rest IH]; intros index acc; simpl.
  - by rewrite app_nil_r.
  - rewrite IH, cast_closest_body, <-app_assoc. f_equal.
    rewrite filter_cons. by destruct (casts_box s index).
Qed.

Lemma cast_indices_filter s origin vector :
  cast_indices s origin vector
  = filter (λ i, casts_box s i) (seq 0 (length (_boxes s))).
Proof. unfold cast_indices, closest_run. by rewrite cast_closest_loop. Qed.

Lemma closest_body_inv s origin vector k box acc :
  _boxes s !! k = Some box →
  closest_inv s origin vector k acc →
  closest_inv s origin vector (S k) (closest_body s origin vector k box acc).
Proof.
  intros Hbox Hinv.
  assert (Hk : ∀ b d, hit s origin vector k b d →
            casts_box s k = true ∧ intersects_vector box origin vector = Some d).
  { intros b d (Hl & Hc & Hd). rewrite Hbox in Hl. by injection Hl as <-. }
  assert (Hsplit : ∀ j, j < S k → j < k ∨ j = k) by lia.
  unfold closest_body, closest_inv in *.
  destruct (casts_box s k) eqn:Hcast;
    [destruct (intersects_vector box origin vector) as [mult|] eqn:Hmult;
     [destruct (Qlt_le_dec mult (multiplier acc)) as [Hlt|Hle]|]|]; simpl.
  - (* a closer box at position [k] *)
    exists box. split_and!; [done|lia|done| | |].
    + destruct (index_return acc); [destruct Hinv as (b & _ & _ & _ & Hcap & _)|
        destruct Hinv as (_ & Hcap & _); rewrite Hcap in Hlt]; lra.
    + intros j b' d Hj Hh. destruct (Hsplit j Hj) as [Hj'| ->].
      * destruct (index_return acc);
          [destruct Hinv as (b & _ & _ & _ & Hcap & Hmin & _)|
           destruct Hinv as (_ & Hcap & Hmin); rewrite Hcap in Hlt];
          specialize (Hmin j b' d Hj' Hh); lra.
      * apply Hk in Hh as [_ Hd]. injection Hd as <-. lra.
    + intros j b' d Hj Hh.
      destruct (index_return acc);
        [destruct Hinv as (b & _ & _ & _ & Hcap & Hmin & _)|
         destruct Hinv as (_ & Hcap & Hmin); rewrite Hcap in Hlt];
        specialize (Hmin j b' d Hj Hh); lra.
  - (* the box at position [k] is not closer *)
    destruct (index_return acc).
    + destruct Hinv as (b & Hb & Hi & Hhit & Hcap & Hmin & Hfirst).
      exists b. split_and!; [done|lia|done|done| |done].
      intros j b' d Hj Hh. destruct (Hsplit j Hj) as [Hj'| ->]; [eauto|].
      apply Hk in Hh as [_ Hd]. by injection Hd as <-.
    + destruct Hinv as (Hb & Hcap & Hmin). split_and!; [done|done|].
      intros j b' d Hj Hh. destruct (Hsplit j Hj) as [Hj'| ->]; [eauto|].
      apply Hk in Hh as [_ Hd]. injection Hd as <-. by rewrite <-Hcap.
  - (* the ray misses the box at position [k] *)
    destruct (index_return acc).
    + destruct Hinv as (b & Hb & Hi & Hhit & Hcap & Hmin & Hfirst).
      exists b. split_and!; [done|lia|done|done| |done].
      intros j b' d Hj Hh. destruct (Hsplit j Hj) as [Hj'| ->]; [eauto|].
      apply Hk in Hh as [_ Hd]. done.
    + destruct Hinv as (Hb & Hcap & Hmin). split_and!; [done|done|].
      intros j b' d Hj Hh. destruct (Hsplit j Hj) as [Hj'| ->]; [eauto|].
      apply Hk in Hh as [_ Hd]. done.
  - (* the box at position [k] is left out *)
    destruct (index_return acc).
    + destruct Hinv as (b & Hb & Hi & Hhit & Hcap & Hmin & Hfirst).
      exists b. split_and!; [done|lia|done|done| |done].
      intros j b' d Hj Hh. destruct (Hsplit j Hj) as [Hj'| ->]; [eauto|].
      apply Hk in Hh as [Hc _]. done.
    + destruct Hinv as (Hb & Hcap & Hmin). split_and!; [done|done|].
      intros j b' d Hj Hh. destruct (Hsplit j Hj) as [Hj'| ->]; [eauto|].
      apply Hk in Hh as [Hc _]. done.
Qed.

Lemma closest_loop_inv s origin vector : ∀ rest pre acc,
  _boxes s = pre ++ rest →
  closest_inv s origin vector (length pre) acc →
  closest_inv s origin vector (length (_boxes s))
    (closest_loop s origin vector (length pre) rest acc).
Proof.
  induction rest as [|box rest IH]; intros pre acc Hboxes Hinv; simpl.
  - by rewrite Hboxes, app_nil_r.
  - specialize (IH (pre ++ [box]) (closest_body s origin vector (length pre) box acc)).
    rewrite length_app in IH. simpl in IH.
    replace (length pre + 1) with (S (length pre)) in IH by lia.
    apply IH.
    + by rewrite <-app_assoc.
    + apply closest_body_inv; [|done].
      rewrite Hboxes. by rewrite list_lookup_middle.
Qed.

Lemma closest_run_inv s origin vector :
  closest_inv s origin vector (length (_boxes s)) (closest_run s origin vector).
Proof.
  apply (closest_loop_inv s origin vector (_boxes s) []); [done|].
  repeat split. intros j b d Hj. simpl in Hj. lia.
Qed.
(** C1, as the code has it: [closest_intersection] casts the ray against the
    committed box at position [i] unless the group is editable, there is an
    active box, that box is dynamic, and [i] is [_active_box_index].  So when
    the group is not editable, or there is no active box, or the active box
    is static, every committed box is cast against, in list order. *)
Theorem closest_intersection_casts s origin vector :
  (∀ i, i ∈ cast_indices s origin vector ↔
        i < length (_boxes s)
        ∧ ¬ (_editable s = true
             ∧ (∃ a, _active_box s = Some a
                     ∧ RenderSelectionEditable.is_dynamic a = true)
             ∧ _active_box_index s = Some i))
  ∧ (_editable s = false ∨ _active_box s = None
     ∨ (∃ a, _active_box s = Some a
             ∧ RenderSelectionEditable.is_static a = true) →
     cast_indices s origin vector = seq 0 (length (_boxes s))).
Proof.
  rewrite cast_indices_filter. split.
  - intros i. rewrite list_elem_of_filter, elem_of_seq, <-casts_box_false.
    destruct (casts_box s i); simpl; split.
    + intros [_ Hi]. split; [lia|done].
    + intros [Hi _]. split; [done|lia].
    + by intros [[] _].
    + by intros [_ []].
  - intros Hall. apply filter_all. intros i.
    unfold casts_box.
    destruct Hall as [->|[->|(a & -> & ->)]]; simpl; [done| |];
      by rewrite orb_true_r.
Qed.

(** C4, as the code has it: when the distances at which the ray meets the
    boxes it is cast against are positive, [closest_intersection] returns
    the position and the box of the minimum positive distance among those
    below 999999999, the first such position in list order; it returns
    [(None, None)] when the ray meets no such box below 999999999. *)
Theorem closest_intersection_minimum s origin vector :
  (∀ j b d, hit s origin vector j b d → (0 < d)%Q) →
  match closest_intersection s origin vector with
  | (Some i, Some b) =>
      ∃ d, hit s origin vector i b d ∧ (0 < d)%Q ∧ (d < 999999999)%Q
        ∧ (∀ j b' d', hit s origin vector j b' d' → (d <= d')%Q)
        ∧ (∀ j b' d', j < i → hit s origin vector j b' d' → (d < d')%Q)
  | (None, None) =>
      ∀ j b' d', hit s origin vector j b' d' → (999999999 <= d')%Q
  | _ => False
  end.
Proof.
  intros Hpositive.
  pose proof (closest_run_inv s origin vector) as Hinv.
  unfold closest_intersection, closest_inv in *. simpl.
  destruct (index_return (closest_run s origin vector)) as [i|].
  - destruct Hinv as (b & -> & Hi & Hhit & Hcap & Hmin & Hfirst).
    exists (multiplier (closest_run s origin vector)).
    split_and!; [done|by eapply Hpositive|done| |done].
    intros j b' d' Hh. apply (Hmin j b' d'); [|done].
    destruct Hh as (Hl & _). by apply lookup_lt_Some in Hl.
  - destruct Hinv as (-> & _ & Hmin). intros j b' d' Hh.
    apply (Hmin j b' d'); [|done].
    destruct Hh as (Hl & _). by apply lookup_lt_Some in Hl.
Qed.
End PickingFacts.

Lemma closest_intersection_minimum_witness :
  ∃ d, hit (collab := sample) picking_tie ray0 ray0 1 (bx 3) d
    ∧ (0 < d)%Q ∧ (d < 999999999)%Q
    ∧ (∀ j b' d', hit (collab := sample) picking_tie ray0 ray0 j b' d' →
         (d <= d')%Q)
    ∧ (∀ j b' d', j < 1 →
         hit (collab := sample) picking_tie ray0 ray0 j b' d' → (d < d')%Q).
Proof.
  refine (closest_intersection_minimum (collab := sample) picking_tie
            ray0 ray0 _).
  intros j b d (Hl & _ & Hd).
  destruct j as [|[|[|[|j]]]]; simpl in Hl; try discriminate Hl;
    injection Hl as <-; try discriminate Hd; injection Hd as <-;
    reflexivity.
Defined.

Lemma closest_intersection_casts_witness :
  cast_indices (collab := sample) picking_static ray0 ray0
  = seq 0 (length (_boxes picking_static)).
Proof.
  apply (closest_intersection_casts (collab := sample) picking_static ray0 ray0).
  right; right. eexists. split; reflexivity.
Defined.

(** With a dynamic active box on position 1, the worded rule keeps box 1 in
    the cast and the code leaves it out; with a static one, the worded rule
    leaves box 1 out and the code casts against it. *)
Lemma closest_intersection_casts_as_specified_fails :
  (skipped_as_specified picking_dynamic 1 = false
   ∧ cast_indices (collab := sample) picking_dynamic ray0 ray0 = [0])
  ∧ (skipped_as_specified picking_static 1 = true
     ∧ cast_indices (collab := sample) picking_static ray0 ray0 = [0; 1]).
Proof. repeat split; reflexivity. Qed.

(** The only box is eligible and the ray meets it, at distance 999999999,
    yet nothing is returned. *)
Lemma closest_intersection_far_box_missed :
  hit (collab := sample) picking_far ray0 ray0 0 (bx 999999999) 999999999
  ∧ closest_intersection (collab := sample) picking_far ray0 ray0 = (None, None).
Proof. repeat split; reflexivity. Qed.

(** On a tie at distance 3 the earlier position is returned. *)
Example closest_intersection_tie :
  closest_intersection (collab := sample) picking_tie ray0 ray0
  = (Some 1, Some (bx 3)).
Proof. reflexivity. Qed.

(** ** The life cycle of the active box *)

(** Unfolds a method call down to the state it is run on. *)
Ltac run :=
  unfold run_op, box_select_toggle, box_select_disable, _box_select_disable,
    update_cursor_position, deselect_active, set_editable,
    _create_active_box, _create_active_box_from_cursor, on_box,
    on_active_box, unload, boxes_pop_at, boxes_getitem, state_after,
    bind, gets, modify, ret, raise in *;
  simpl in *.

Example stale_hover_state :
  stale_hover
  = mkGroup [RenderSelection.mk (0, 0, 0)%Z (0, 0, 0)%Z] true
      (Some (RenderSelectionEditable.mk (0, 0, 0)%Z (0, 0, 0)%Z false))
      (Some 0) (Some 0) (Some 1) (0, 0, 0)%Z
      [RenderSelection.mk (0, 0, 0)%Z (0, 0, 0)%Z].
Proof. reflexivity. Qed.

Section LifecycleFacts.
Context {collab : Collaborator}.
Implicit Types (s : Group).

(** The loop of [deselect_all] empties the list when it is given as many
    rounds as the list has boxes, and unloads the boxes last to first. *)
Lemma deselect_all_loop_spec : ∀ fuel s,
  length (_boxes s) ≤ fuel →
  deselect_all_loop fuel s
  = (Return (),
     with_unloaded (unloaded s ++ reverse (_boxes s)) (with_boxes [] s)).
Proof.
  induction fuel as [|fuel IH]; intros [boxes e a i l h c u] Hlen;
    simpl in Hlen; simpl.
  - destruct boxes; [|simpl in Hlen; lia].
    unfold ret, with_unloaded, with_boxes. simpl. by rewrite app_nil_r.
  - unfold bind at 1, gets at 1. simpl.
    destruct boxes as [|b0 rest0] eqn:Hboxes.
    { unfold ret, with_unloaded, with_boxes. simpl. by rewrite app_nil_r. }
    rewrite <-Hboxes in *.
    assert (Hsnoc : ∃ front box, boxes = front ++ [box]).
    { destruct (last boxes) as [x|] eqn:Hlast.
      - apply last_Some in Hlast as [front ->]. eauto.
      - apply last_None in Hlast. congruence. }
    destruct Hsnoc as (front & box & Hsnoc). clear Hboxes. subst boxes.
    unfold boxes_pop, unload, bind, gets, modify, ret. simpl.
    rewrite last_snoc, removelast_last. simpl.
    rewrite length_app in Hlen. simpl in Hlen.
    rewrite IH by (simpl; lia).
    unfold with_unloaded, with_boxes. simpl.
    by rewrite reverse_snoc, <-app_assoc.
Qed.

(** C8, as the code has it: [deselect_all] unloads every committed box (last
    to first) and leaves the list empty, sets the active box to [None], and
    sets [_active_box_index] and [_last_active_box_index] to [None]; the
    hover index, the cursor position and the editable flag are as before. *)
Theorem deselect_all_spec s :
  deselect_all s
  = (Return (),
     mkGroup [] (_editable s) None None None (_hover_box_index s)
       (_cursor_position s) (unloaded s ++ reverse (_boxes s))).
Proof.
  unfold deselect_all, bind, gets. simpl.
  by rewrite deselect_all_loop_spec.
Qed.

(** C10: with [_active_box_index] at [None], setting [editable] to [True]
    sets the active box to [None] and changes nothing else but the flag; the
    committed boxes are untouched. *)
Theorem set_editable_true_without_index s :
  _active_box_index s = None →
  set_editable true s
  = (Return (), with_active_box None (with_editable true s))
  ∧ _active_box (state_after (set_editable true s)) = None
  ∧ _boxes (state_after (set_editable true s)) = _boxes s.
Proof. destruct s as [boxes e a idx l h c u]. simpl. intros ->. by run. Qed.

(** C6: when [_active_box_index] is the position of a committed box, setting
    [editable] to [False] only drops the active box, and setting it to [True]
    afterwards builds a static active box with the corners of that committed
    box; the committed boxes are the same throughout. *)
Theorem set_editable_off_on s i b :
  _active_box_index s = Some i →
  _boxes s !! i = Some b →
  let off := set_editable false s in
  let on := set_editable true (state_after off) in
  off = (Return (), with_active_box None (with_editable false s))
  ∧ on.1 = Return ()
  ∧ _boxes (state_after on) = _boxes s
  ∧ _active_box (state_after on)
    = Some (RenderSelectionEditable.mk (RenderSelection.point1 b)
              (RenderSelection.point2 b) false)
  ∧ _active_box_index (state_after on) = Some i.
Proof.
  destruct s as [boxes e a idx l h c u]. simpl. intros -> Hbox.
  run. by rewrite Hbox.
Qed.

(** C5: [deselect_active] with [_active_box_index] at the position [i] of a
    committed box [b] removes and unloads that box.  If boxes remain, the
    index goes down by one exactly when it was at least 1, and the active box
    becomes a static box with the corners of the committed box at the new
    index; if none remains, the active box and both indices are [None]. *)
Theorem deselect_active_committed s i b :
  _active_box_index s = Some i →
  _boxes s !! i = Some b →
  let r := deselect_active s in
  r.1 = Return ()
  ∧ _boxes (state_after r) = delete i (_boxes s)
  ∧ unloaded (state_after r) = unloaded s ++ [b]
  ∧ match delete i (_boxes s) with
    | [] =>
        _active_box (state_after r) = None
        ∧ _active_box_index (state_after r) = None
        ∧ _last_active_box_index (state_after r) = None
    | _ :: _ =>
        let i' := if bool_decide (1 ≤ i) then i - 1 else i in
        _active_box_index (state_after r) = Some i'
        ∧ _last_active_box_index (state_after r) = Some i'
        ∧ ∃ b', delete i (_boxes s) !! i' = Some b'
            ∧ _active_box (state_after r)
              = Some (RenderSelectionEditable.mk (RenderSelection.point1 b')
                        (RenderSelection.point2 b') false)
    end.
Proof.
  destruct s as [boxes e a idx l h c u]. simpl. intros -> Hbox.
  assert (Hlen : i < length boxes) by by eapply lookup_lt_Some.
  pose proof (length_delete boxes i (mk_is_Some _ _ Hbox)) as Hdel.
  run. rewrite Hbox. simpl.
  destruct (delete i boxes) as [|b0 rest] eqn:Hrest; [done|].
  simpl in Hdel.
  case_bool_decide as Hi; simpl.
  - destruct ((b0 :: rest) !! (i - 1)) as [b'|] eqn:Hb'; simpl.
    + split_and!; try done. by exists b'.
    + apply lookup_ge_None in Hb'. simpl in Hb'. lia.
  - assert (i = 0) as -> by lia. simpl.
    split_and!; try done. by exists b0.
Qed.

(** C3, as the code has it: with no active box and no committed box, a first
    [box_select_toggle] creates a dynamic active box with both corners at the
    cursor position and commits nothing; a second one commits that box --
    the list now holds one box with both corners at the cursor position,
    [_active_box_index] is 0 -- and leaves the active box static. *)
Theorem box_select_toggle_twice s add1 add2 :
  _active_box s = None →
  _boxes s = [] →
  let A := _cursor_position s in
  let first := box_select_toggle add1 s in
  let second := box_select_toggle add2 (state_after first) in
  first.1 = Return None
  ∧ _active_box (state_after first)
    = Some (RenderSelectionEditable.mk A A true)
  ∧ _boxes (state_after first) = []
  ∧ _active_box_index (state_after first) = None
  ∧ second.1 = Return None
  ∧ _boxes (state_after second) = [RenderSelection.mk A A]
  ∧ _active_box (state_after second)
    = Some (RenderSelectionEditable.mk A A false)
  ∧ _active_box_index (state_after second) = Some 0.
Proof. destruct s as [boxes e a idx l h c u]. simpl. intros -> ->. by run. Qed.

(** What [deselect_all] leaves, for the proofs about the methods that call
    it. *)
Lemma deselect_all_run s :
  deselect_all s
  = (Return (),
     mkGroup [] (_editable s) None None None (_hover_box_index s)
       (_cursor_position s) (unloaded s ++ reverse (_boxes s))).
Proof.
  unfold deselect_all, bind, gets. simpl.
  by rewrite deselect_all_loop_spec.
Qed.

(** With the indices the object holds -- the active one, the last active one
    and the hover one -- inside the list, a call (with a position that fits
    the cursor array, if it takes one) returns and leaves the active and the
    last active index inside the list. *)
Lemma run_op_ok op s :
  op_fits op = true →
  indices_ok s → hover_ok s →
  returns (run_op op s) ∧ indices_ok (state_after (run_op op s)).
Proof.
  destruct s as [boxes e a idx l h c u].
  unfold indices_ok, hover_ok, index_ok, returns. simpl.
  intros Hfits [Hidx Hlast] Hhov.
  destruct op as [ed| | |position box_index| |add]; run.
  - (* the setter of editable *)
    destruct ed, idx as [i|]; simpl; eauto.
    destruct (boxes !! i) eqn:Hb; simpl; eauto.
    apply lookup_ge_None in Hb. lia.
  - (* deselect_all *)
    rewrite deselect_all_run. simpl. eauto.
  - (* deselect_active *)
    destruct idx as [i|]; simpl.
    + destruct (boxes !! i) as [b|] eqn:Hb; simpl;
        [|apply lookup_ge_None in Hb; lia].
      pose proof (length_delete boxes i (mk_is_Some _ _ Hb)) as Hdel.
      destruct (delete i boxes) as [|b0 rest] eqn:Hrest; simpl; [eauto|].
      simpl in Hdel.
      case_bool_decide; simpl.
      * destruct ((b0 :: rest) !! (i - 1)) eqn:Hb'; simpl;
          [|apply lookup_ge_None in Hb'; simpl in Hb'; lia].
        split; [eauto|]. split; lia.
      * destruct i; [simpl|lia]. split; [eauto|]. split; lia.
    + destruct a as [[p1 p2 []]|], l; simpl; eauto.
  - (* update_cursor_position *)
    rewrite Hfits. simpl. destruct a; simpl; eauto.
  - (* box_select_disable *)
    destruct a as [[p1 p2 []]|]; simpl; eauto.
    destruct idx as [i|]; simpl.
    + destruct (boxes !! i) eqn:Hb; simpl;
        [|apply lookup_ge_None in Hb; lia].
      rewrite Hb. simpl. rewrite length_insert. eauto.
    + rewrite lookup_app_r, Nat.sub_diag by done. simpl.
      rewrite length_insert, length_app. simpl.
      split; [eauto|]. destruct l; split; lia.
  - (* box_select_toggle *)
    destruct a as [[p1 p2 []]|]; simpl.
    + (* a dynamic active box is committed *)
      destruct idx as [i|]; simpl.
      * destruct (boxes !! i) eqn:Hb; simpl;
          [|apply lookup_ge_None in Hb; lia].
        rewrite Hb. simpl. rewrite length_insert. eauto.
      * rewrite lookup_app_r, Nat.sub_diag by done. simpl.
        rewrite length_insert, length_app. simpl.
        split; [eauto|]. destruct l; split; lia.
    + (* a static active box *)
      case_bool_decide as Hsame; simpl; [eauto|].
      destruct h as [j|]; simpl.
      * destruct (boxes !! j) eqn:Hb; simpl;
          [|apply lookup_ge_None in Hb; lia].
        eauto.
      * destruct add; simpl; [|rewrite deselect_all_run; simpl]; eauto.
    + (* no active box *)
      eauto.
Qed.

(** A position that does not fit makes [update_cursor_position] raise before
    it has written anything. *)
Lemma update_cursor_position_overflow position box_index s :
  position_fits position = false →
  update_cursor_position position box_index s = (Raise OverflowError, s).
Proof. intros Hfits. run. by rewrite Hfits. Qed.

(** A call that returns or raises leaves the active and the last active
    index inside the list. *)
Lemma run_op_indices_ok op s :
  indices_ok s → hover_ok s → indices_ok (state_after (run_op op s)).
Proof.
  intros Hidx Hhov. destruct (op_fits op) eqn:Hfits.
  - by apply run_op_ok.
  - destruct op as [ed| | |position box_index| |add]; try done.
    simpl in Hfits. unfold run_op, bind, state_after.
    by rewrite update_cursor_position_overflow.
Qed.
(** The same along a sequence of calls. *)
Lemma run_ops_indices_ok : ∀ ops s,
  indices_ok s → hover_ok_along ops s → indices_ok (run_ops ops s).
Proof.
  induction ops as [|op ops IH]; intros s Hidx Hhov; simpl; [done|].
  destruct Hhov as [Hhov Hrest]. apply IH; [|done].
  by apply run_op_indices_ok.
Qed.

(** C2, as the code has it: a call of a public method keeps
    [_active_box_index] and [_last_active_box_index], when they are not
    [None], below the length of the list of committed boxes, provided the
    hover index the object holds when the method is called is [None] or
    below that length. *)
Theorem indices_ok_preserved op s :
  indices_ok s → hover_ok s → indices_ok (state_after (run_op op s)).
Proof. intros Hidx Hhov. by apply run_op_indices_ok. Qed.

(** C7, as the code has it: [box_select_toggle] returns the cursor position
    exactly when there is an active box, it is static, and the hover index
    equals [_active_box_index]; in every other case it returns [None],
    provided the active index and the hover index the object holds are
    [None] or positions of the list of committed boxes. *)
Theorem box_select_toggle_returns add s :
  (∀ p, (box_select_toggle add s).1 = Return (Some p) ↔
        resumes_resizing s = true ∧ p = _cursor_position s)
  ∧ (index_ok s (_active_box_index s) → hover_ok s →
     resumes_resizing s = false →
     (box_select_toggle add s).1 = Return None).
Proof.
  destruct s as [boxes e a idx l h c u].
  unfold hover_ok, index_ok, resumes_resizing. simpl. split.
  - intros p. run. destruct a as [[p1 p2 []]|]; simpl.
    + split; [|by intros [? _]].
      destruct idx as [i|]; simpl.
      * destruct (boxes !! i) eqn:Hb; simpl; [rewrite Hb|]; done.
      * by rewrite lookup_app_r, Nat.sub_diag by done.
    + case_bool_decide as Hsame; simpl.
      * split; [by intros [= <-]|by intros [_ ->]].
      * split; [|by intros [? _]].
        destruct h as [j|]; simpl.
        -- destruct (boxes !! j); simpl; done.
        -- destruct add; simpl; [|rewrite deselect_all_run]; done.
    + split; [done|by intros [? _]].
  - intros Hidx Hhov Hres. run. destruct a as [[p1 p2 []]|]; simpl in *.
    + destruct idx as [i|]; simpl.
      * destruct (boxes !! i) eqn:Hb; simpl;
          [by rewrite Hb|apply lookup_ge_None in Hb; lia].
      * by rewrite lookup_app_r, Nat.sub_diag by done.
    + rewrite Hres. simpl. destruct h as [j|]; simpl.
      * destruct (boxes !! j) eqn:Hb; simpl;
          [done|apply lookup_ge_None in Hb; lia].
      * destruct add; simpl; [|rewrite deselect_all_run]; done.
    + done.
Qed.

End LifecycleFacts.

(** *** The theorems at work on sample states *)

Lemma set_editable_true_without_index_witness :
  _active_box creating_first
  = Some (RenderSelectionEditable.mk (4, 0, 0)%Z (6, 2, 1)%Z true)
  ∧ set_editable (collab := sample) true creating_first
    = (Return (),
       mkGroup [bx 1] true None None (Some 0) None (6, 2, 1)%Z [])
  ∧ _active_box
      (state_after (set_editable (collab := sample) true creating_first))
    = None
  ∧ _boxes (state_after (set_editable (collab := sample) true creating_first))
    = [bx 1].
Proof.
  split; [reflexivity|].
  apply (set_editable_true_without_index (collab := sample) creating_first).
  reflexivity.
Defined.

Lemma set_editable_off_on_witness :
  _active_box
    (state_after
       (set_editable (collab := sample) true
          (state_after (set_editable (collab := sample) false picking_static))))
  = Some (RenderSelectionEditable.mk (2, 0, 0)%Z (2, 1, 1)%Z false).
Proof.
  apply (set_editable_off_on (collab := sample) picking_static 1 (bx 2));
    reflexivity.
Defined.

Lemma deselect_active_committed_witness :
  _boxes (state_after (deselect_active (collab := sample) picking_static))
  = [bx 1].
Proof.
  apply (deselect_active_committed (collab := sample) picking_static 1 (bx 2));
    reflexivity.
Defined.

Lemma box_select_toggle_twice_witness :
  _boxes
    (state_after
       (box_select_toggle (collab := sample) false
          (state_after (box_select_toggle (collab := sample) false init))))
  = [RenderSelection.mk (0, 0, 0)%Z (0, 0, 0)%Z].
Proof.
  apply (box_select_toggle_twice (collab := sample) init false false);
    reflexivity.
Defined.

Lemma indices_ok_preserved_witness :
  indices_ok (state_after (run_op (collab := sample) DeselectActive picking_static)).
Proof.
  apply (indices_ok_preserved (collab := sample) DeselectActive picking_static).
  - unfold indices_ok, index_ok. simpl. lia.
  - unfold hover_ok, index_ok. simpl. lia.
Defined.

Lemma box_select_toggle_returns_witness :
  (box_select_toggle (collab := sample) true picking_dynamic).1 = Return None.
Proof.
  apply (box_select_toggle_returns (collab := sample) true picking_dynamic).
  - unfold index_ok. simpl. lia.
  - unfold hover_ok, index_ok. simpl. lia.
  - reflexivity.
Defined.


(** *** Where the wording and the code part *)

(** The second toggle leaves the committed box's static copy as the active
    box: no new dynamic box is created. *)
Lemma box_select_toggle_twice_leaves_static :
  let second :=
    state_after
      (box_select_toggle (collab := sample) false
         (state_after (box_select_toggle (collab := sample) false init))) in
  _active_box second
  = Some (RenderSelectionEditable.mk (0, 0, 0)%Z (0, 0, 0)%Z false)
  ∧ RenderSelectionEditable.is_dynamic <$> _active_box second ≠ Some true.
Proof. split; [reflexivity|discriminate]. Qed.

(** [deselect_all] leaves the hover index as it was. *)
Lemma deselect_all_keeps_hover_index :
  _hover_box_index picking_static = Some 1
  ∧ _hover_box_index (state_after (deselect_all picking_static))
    = Some 1.
Proof. split; reflexivity. Qed.

(** Every hover index of the trace was below the length of the list when it
    was supplied, and the trace ends with both indices at 1 and one box. *)
Lemma indices_ok_broken_by_stale_hover :
  indices_ok init
  ∧ supplied_hover_ok (collab := sample) stale_hover_trace init
  ∧ ¬ indices_ok (run_ops (collab := sample) stale_hover_trace init).
Proof.
  split_and!.
  - unfold indices_ok, index_ok. simpl. done.
  - unfold index_ok. simpl. split_and!; try done. lia.
  - unfold indices_ok, index_ok. simpl. lia.
Qed.

(** In the state the trace reaches before its last call, the toggle is not
    in the unlocking branch and does not return [None]: it raises. *)
Lemma box_select_toggle_raises_on_stale_hover :
  resumes_resizing stale_hover = false
  ∧ (box_select_toggle (collab := sample) false stale_hover).1
    = Raise IndexError.
Proof. split; reflexivity. Qed.


(** ** Drawing *)

Section DrawFacts.
Implicit Types (s : Group).

Lemma draw_loop_all s boxes : ∀ n,
  (∀ k, n ≤ k → draws_box s k = true) →
  draw_loop s n boxes = imap (λ k, DrawCommitted (n + k)) boxes.
Proof.
  induction boxes as [|box rest IH]; intros n Hall; simpl; [done|].
  rewrite Hall by lia. simpl. rewrite Nat.add_0_r. f_equal.
  rewrite IH by (intros k Hk; apply Hall; lia).
  apply imap_ext. intros k x _. simpl. f_equal. lia.
Qed.

Lemma draw_loop_skip s i boxes : ∀ n,
  _editable s = true → _active_box_index s = Some i → n ≤ i →
  draw_loop s n boxes
  = delete (i - n) (imap (λ k, DrawCommitted (n + k)) boxes).
Proof.
  induction boxes as [|box rest IH]; intros n Hed Hidx Hn; simpl; [done|].
  unfold draws_box at 1. rewrite Hed, Hidx. simpl.
  case_bool_decide as Hne; simpl.
  - assert (n ≠ i) by congruence.
    replace (i - n) with (S (i - S n)) by lia. simpl.
    rewrite Nat.add_0_r. f_equal.
    rewrite IH by (done || lia). f_equal.
    apply imap_ext. intros k x _. simpl. f_equal. lia.
  - assert (n = i) as -> by congruence.
    rewrite Nat.sub_diag. simpl.
    rewrite draw_loop_all.
    + apply imap_ext. intros k x _. simpl. f_equal. lia.
    + intros k Hk. unfold draws_box. rewrite Hed, Hidx. simpl.
      case_bool_decide as Hk'; [done|]. injection Hk' as ->. lia.
Qed.

(** When the group is not editable, or has no active index, [draw] draws
    every committed box, in list order, and then the active box if there is
    one: a group that is not editable draws the committed box at the active
    index and the active box both. *)
Theorem draw_everything s :
  _editable s = false ∨ _active_box_index s = None →
  draw s
  = imap DrawCommitted (_boxes s)
    ++ match _active_box s with
       | Some a => [DrawActive a]
       | None => []
       end.
Proof.
  intros Hall. unfold draw. f_equal.
  rewrite draw_loop_all; [done|].
  intros k _. unfold draws_box.
  destruct Hall as [-> | ->]; simpl; [done|].
  by rewrite orb_true_r.
Qed.

(** When the group is editable and has an active index and an active box,
    [draw] draws the committed boxes but the one at the active index, in list
    order, and then the active box; with the active index inside the list
    these are as many calls as there are committed boxes. *)
Theorem draw_replaces_active s i a :
  _editable s = true →
  _active_box_index s = Some i →
  _active_box s = Some a →
  draw s = delete i (imap DrawCommitted (_boxes s)) ++ [DrawActive a]
  ∧ (i < length (_boxes s) → length (draw s) = length (_boxes s)).
Proof.
  intros Hed Hidx Hact.
  assert (Hdraw : draw s
            = delete i (imap DrawCommitted (_boxes s)) ++ [DrawActive a]).
  { unfold draw. rewrite Hact. f_equal.
    rewrite (draw_loop_skip s i) by (done || lia).
    by rewrite Nat.sub_0_r. }
  split; [done|]. intros Hi. rewrite Hdraw, length_app. simpl.
  destruct (lookup_lt_is_Some_2 (imap DrawCommitted (_boxes s)) i) as [c Hc];
    [by rewrite length_imap|].
  pose proof (length_delete _ _ (mk_is_Some _ _ Hc)) as Hlen.
  rewrite length_imap in Hlen. lia.
Qed.
End DrawFacts.

Lemma draw_everything_witness :
  draw (with_editable false picking_static)
  = [DrawCommitted 0 (bx 1); DrawCommitted 1 (bx 2);
     DrawActive (RenderSelectionEditable.mk (2, 0, 0)%Z (2, 1, 1)%Z false)].
Proof.
  apply (draw_everything (with_editable false picking_static)).
  left. reflexivity.
Defined.

Lemma draw_replaces_active_witness :
  length (draw picking_static) = length (_boxes picking_static).
Proof.
  apply (draw_replaces_active picking_static 1
           (RenderSelectionEditable.mk (2, 0, 0)%Z (2, 1, 1)%Z false));
    try reflexivity.
  simpl. lia.
Defined.

(** ** What the methods keep *)

Section KeptFacts.
Context {collab : Collaborator}.
Implicit Types (s : Group).

(** Closes a goal [active_consistent] on a state whose fields are known. *)
Ltac consistent_done :=
  unfold active_consistent, RenderSelectionEditable.is_static in *;
  simpl in *;
  split; [intros ? [= <-] ?|intros ? ?]; simpl in *;
  first [done | congruence | tauto].

Lemma run_op_active_consistent op s :
  active_consistent s → active_consistent (state_after (run_op op s)).
Proof.
  destruct s as [boxes e a idx l h c u]. intros Hs.
  destruct op as [ed| | |position box_index| |add]; run.
  - (* the setter of editable *)
    destruct ed, idx as [i|]; simpl; try consistent_done.
    destruct (boxes !! i); simpl; consistent_done.
  - (* deselect_all *)
    rewrite deselect_all_run. simpl. consistent_done.
  - (* deselect_active *)
    destruct idx as [i|]; simpl.
    + destruct (boxes !! i) as [b|]; simpl; [|done].
      destruct (delete i boxes) as [|b0 rest]; simpl; [consistent_done|].
      case_bool_decide; simpl.
      * destruct ((b0 :: rest) !! (i - 1)); simpl; consistent_done.
      * destruct (_ !! i); simpl; consistent_done.
    + destruct a as [[p1 p2 []]|], l; simpl; first [done | consistent_done].
  - (* update_cursor_position *)
    destruct (position_fits position); simpl; [|done].
    destruct a as [[p1 p2 dyn]|]; simpl; [|done].
    destruct Hs as [Hst Hed]. split.
    + intros a' [= <-] Hdyn. by apply (Hst _ eq_refl).
    + done.
  - (* box_select_disable *)
    destruct a as [[p1 p2 []]|]; simpl; try done.
    destruct idx as [i|]; simpl.
    + destruct (boxes !! i) eqn:Hb; simpl; [rewrite Hb|]; consistent_done.
    + rewrite lookup_app_r, Nat.sub_diag by done. simpl. consistent_done.
  - (* box_select_toggle *)
    destruct a as [[p1 p2 []]|]; simpl.
    + destruct idx as [i|]; simpl.
      * destruct (boxes !! i) eqn:Hb; simpl; [rewrite Hb|]; consistent_done.
      * rewrite lookup_app_r, Nat.sub_diag by done. simpl. consistent_done.
    + case_bool_decide as Hsame; simpl; [consistent_done|].
      destruct h as [j|]; simpl.
      * destruct (boxes !! j); simpl; consistent_done.
      * destruct add; simpl; [|rewrite deselect_all_run; simpl];
          consistent_done.
    + consistent_done.
Qed.

(** Whatever public methods are called, and whether they return or raise: a
    static active box always has an active index, and an editable group with
    an active index always has an active box. *)
Theorem active_consistent_kept : ∀ ops s,
  active_consistent s → active_consistent (run_ops ops s).
Proof.
  induction ops as [|op ops IH]; intros s Hs; simpl; [done|].
  apply IH. by apply run_op_active_consistent.
Qed.
(** Closes a goal [static_mirrors_committed] on a state whose active box is
    absent or dynamic, or is static with the committed box at hand. *)
Ltac mirrors_done :=
  unfold static_mirrors_committed, RenderSelectionEditable.is_static in *;
  simpl in *;
  intros ? ? ? ? ?; simplify_eq; simpl in *;
  first [done | eexists; split; [eassumption|done]].

(** If [set_active_point] does not move the corners of a static box, a call
    of a public method on a state whose active index is [None] or inside the
    list keeps this: a static active box has the corners of the committed box
    at the active index. *)
Theorem static_mirrors_committed_kept op s :
  static_corners_fixed collab →
  index_ok s (_active_box_index s) →
  static_mirrors_committed s →
  static_mirrors_committed (state_after (run_op op s)).
Proof.
  destruct s as [boxes e a idx l h c u]. unfold index_ok. simpl.
  intros Hfixed Hidx Hs.
  destruct op as [ed| | |position box_index| |add]; run.
  - (* the setter of editable *)
    destruct ed, idx as [i|]; simpl; try mirrors_done.
    destruct (boxes !! i) eqn:Hb; simpl; mirrors_done.
  - (* deselect_all *)
    rewrite deselect_all_run. simpl. mirrors_done.
  - (* deselect_active *)
    destruct idx as [i|]; simpl.
    + destruct (boxes !! i) as [b|]; simpl; [|done].
      destruct (delete i boxes) as [|b0 rest]; simpl; [mirrors_done|].
      case_bool_decide; simpl.
      * destruct ((b0 :: rest) !! (i - 1)) eqn:Hb'; simpl; mirrors_done.
      * destruct ((b0 :: rest) !! i) eqn:Hb'; simpl; mirrors_done.
    + destruct a as [[p1 p2 []]|], l; simpl; first [done | mirrors_done].
  - (* update_cursor_position *)
    destruct (position_fits position); simpl; [|done].
    destruct a as [[p1 p2 dyn]|]; simpl; [|done].
    unfold set_active_point. simpl. destruct dyn; [mirrors_done|].
    rewrite Hfixed. simpl.
    intros a' i' Ha Hst Hi. exact (Hs a' i' Ha Hst Hi).
  - (* box_select_disable *)
    destruct a as [[p1 p2 []]|]; simpl; try done.
    destruct idx as [i|]; simpl.
    + destruct (boxes !! i) eqn:Hb; simpl;
        [rewrite Hb|apply lookup_ge_None in Hb; lia].
      simpl. intros a' i' [= <-] _ [= <-]. simpl.
      eexists. split; [by apply list_lookup_insert_eq|split; reflexivity].
    + rewrite lookup_app_r, Nat.sub_diag by done. simpl.
      intros a' i' [= <-] _ [= <-]. simpl.
      eexists. split.
      { apply list_lookup_insert_eq. rewrite length_app. simpl. lia. }
      split; reflexivity.
  - (* box_select_toggle *)
    destruct a as [[p1 p2 []]|]; simpl.
    + destruct idx as [i|]; simpl.
      * destruct (boxes !! i) eqn:Hb; simpl;
          [rewrite Hb|apply lookup_ge_None in Hb; lia].
        simpl. intros a' i' [= <-] _ [= <-]. simpl.
        eexists. split; [by apply list_lookup_insert_eq|split; reflexivity].
      * rewrite lookup_app_r, Nat.sub_diag by done. simpl.
        intros a' i' [= <-] _ [= <-]. simpl.
        eexists. split.
        { apply list_lookup_insert_eq. rewrite length_app. simpl. lia. }
        split; reflexivity.
    + case_bool_decide as Hsame; simpl; [mirrors_done|].
      destruct h as [j|]; simpl.
      * destruct (boxes !! j) eqn:Hb; simpl; mirrors_done.
      * destruct add; simpl; [|rewrite deselect_all_run; simpl];
          mirrors_done.
    + mirrors_done.
Qed.

(** What a call of a public method, returning or raising, does to the list
    of committed boxes.  It removes boxes, and then the boxes it has called
    [unload()] on, together with the boxes that remain, are exactly the boxes
    the list held: no committed box leaves the list without [unload()], and
    none that stays is unloaded.  Or it unloads nothing and appends one box,
    or writes one position of the list. *)
Theorem removed_boxes_unloaded op s :
  let s' := state_after (run_op op s) in
  ∃ gone,
    unloaded s' = unloaded s ++ gone
    ∧ (_boxes s ≡ₚ gone ++ _boxes s'
       ∨ gone = [] ∧ (∃ x, _boxes s' = _boxes s ++ [x])
       ∨ gone = [] ∧ (∃ i x, _boxes s' = <[i := x]> (_boxes s))).
Proof.
  destruct s as [boxes e a idx l h c u].
  assert (Hsame : ∃ gone, u = u ++ gone
            ∧ (boxes ≡ₚ gone ++ boxes
               ∨ gone = [] ∧ (∃ x, boxes = boxes ++ [x])
               ∨ gone = [] ∧ (∃ i x, boxes = <[i := x]> boxes))).
  { exists []. rewrite app_nil_r. split; [done|]. by left. }
  assert (Hall : ∃ gone, u ++ reverse boxes = u ++ gone
            ∧ (boxes ≡ₚ gone ++ []
               ∨ gone = [] ∧ (∃ x, [] = boxes ++ [x])
               ∨ gone = [] ∧ (∃ i x, [] = <[i := x]> boxes))).
  { exists (reverse boxes). split; [done|]. left.
    by rewrite app_nil_r, reverse_Permutation. }
  assert (Hpush : ∀ (bs : list RSel) x, bs = boxes ++ [x] →
            ∃ gone, u = u ++ gone
            ∧ (boxes ≡ₚ gone ++ bs
               ∨ gone = [] ∧ (∃ x, bs = boxes ++ [x])
               ∨ gone = [] ∧ (∃ i x, bs = <[i := x]> boxes))).
  { intros bs x ->. exists []. rewrite app_nil_r. split; [done|].
    right; left. eauto. }
  assert (Hwrite : ∀ (bs : list RSel) i x, bs = <[i := x]> boxes →
            ∃ gone, u = u ++ gone
            ∧ (boxes ≡ₚ gone ++ bs
               ∨ gone = [] ∧ (∃ x, bs = boxes ++ [x])
               ∨ gone = [] ∧ (∃ i x, bs = <[i := x]> boxes))).
  { intros bs i x ->. exists []. rewrite app_nil_r. split; [done|].
    right; right. eauto. }
  assert (Hpop : ∀ (bs : list RSel) i b, boxes !! i = Some b →
            bs = delete i boxes →
            ∃ gone, u ++ [b] = u ++ gone
            ∧ (boxes ≡ₚ gone ++ bs
               ∨ gone = [] ∧ (∃ x, bs = boxes ++ [x])
               ∨ gone = [] ∧ (∃ i x, bs = <[i := x]> boxes))).
  { intros bs i b Hb ->. exists [b]. split; [done|]. left.
    by apply delete_Permutation. }
  assert (Hsnoc : ∀ x y : RSel,
            <[length boxes := x]> (boxes ++ [y]) = boxes ++ [x]).
  { intros x y.
    replace (length boxes) with (length boxes + 0) at 1 by lia.
    by rewrite insert_app_r. }
  simpl. destruct op as [ed| | |position box_index| |add]; run.
  - destruct ed, idx as [i|]; simpl; try by apply Hsame.
    destruct (boxes !! i); simpl; by apply Hsame.
  - rewrite deselect_all_run. simpl. apply Hall.
  - destruct idx as [i|]; simpl.
    + destruct (boxes !! i) as [b|] eqn:Hb; simpl; [|by apply Hsame].
      destruct (delete i boxes) as [|b0 rest] eqn:Hrest; simpl.
      { by apply (Hpop [] i b Hb). }
      case_bool_decide; simpl.
      * destruct ((b0 :: rest) !! (i - 1)); simpl;
          by apply (Hpop (b0 :: rest) i b Hb).
      * destruct ((b0 :: rest) !! i); simpl;
          by apply (Hpop (b0 :: rest) i b Hb).
    + destruct a as [[p1 p2 []]|], l; simpl; by apply Hsame.
  - destruct (position_fits position); simpl; [|by apply Hsame].
    destruct a; simpl; by apply Hsame.
  - destruct a as [[p1 p2 []]|]; simpl; try by apply Hsame.
    destruct idx as [i|]; simpl.
    + destruct (boxes !! i) eqn:Hb; simpl; [rewrite Hb|]; simpl;
        [by eapply Hwrite|by apply Hsame].
    + rewrite lookup_app_r, Nat.sub_diag by done. simpl.
      eapply Hpush. apply Hsnoc.
  - destruct a as [[p1 p2 []]|]; simpl.
    + destruct idx as [i|]; simpl.
      * destruct (boxes !! i) eqn:Hb; simpl; [rewrite Hb|]; simpl;
          [by eapply Hwrite|by apply Hsame].
      * rewrite lookup_app_r, Nat.sub_diag by done. simpl.
        eapply Hpush. apply Hsnoc.
    + case_bool_decide as Hsame'; simpl; [by apply Hsame|].
      destruct h as [j|]; simpl.
      * destruct (boxes !! j); simpl; by apply Hsame.
      * destruct add; simpl; [by apply Hsame|].
        rewrite deselect_all_run. simpl. apply Hall.
    + by apply Hsame.
Qed.
End KeptFacts.

Lemma active_consistent_kept_witness :
  active_consistent (run_ops (collab := sample) stale_hover_trace init).
Proof.
  apply (active_consistent_kept (collab := sample) stale_hover_trace init).
  split; simpl; [discriminate|intros _ Hidx; by destruct Hidx].
Defined.

Lemma static_mirrors_committed_kept_witness :
  static_mirrors_committed
    (state_after
       (run_op (collab := sample) (UpdateCursorPosition (7, 7, 7)%Z None)
          picking_static)).
Proof.
  apply (static_mirrors_committed_kept (collab := sample)
           (UpdateCursorPosition (7, 7, 7)%Z None) picking_static).
  - intros position p. reflexivity.
  - unfold index_ok. simpl. lia.
  - intros a i [= <-] _ [= <-]. exists (bx 2). repeat split; reflexivity.
Defined.

(** ** Committing, cancelling and deselecting *)

Section CommitFacts.
Context {collab : Collaborator}.
Implicit Types (s : Group).

(** [box_select_disable] on a dynamic active box, with the active index
    [None] or inside the list, returns, locks the active box and writes its
    corners into one committed box: a box appended to the list when there was
    no active index (which then becomes the last position), the box at the
    active index otherwise.  Every other committed box is as before. *)
Theorem box_select_disable_commits s a :
  _active_box s = Some a →
  RenderSelectionEditable.is_dynamic a = true →
  index_ok s (_active_box_index s) →
  let committed :=
    RenderSelection.mk (RenderSelectionEditable.point1 a)
      (RenderSelectionEditable.point2 a) in
  box_select_disable s
  = (Return (),
     with_boxes
       (match _active_box_index s with
        | Some i => <[i := committed]> (_boxes s)
        | None => _boxes s ++ [committed]
        end)
       (with_active_box_index
          (Some (default (length (_boxes s)) (_active_box_index s)))
          (with_active_box (Some (RenderSelectionEditable.lock a)) s))).
Proof.
  destruct s as [boxes e a' idx l h c u], a as [p1 p2 dyn].
  unfold index_ok. simpl. intros -> -> Hidx. run.
  destruct idx as [i|]; simpl.
  - destruct (boxes !! i) eqn:Hb; simpl;
      [by rewrite Hb|apply lookup_ge_None in Hb; lia].
  - rewrite lookup_app_r, Nat.sub_diag by done. simpl.
    unfold with_boxes, with_active_box_index, with_active_box. simpl.
    do 2 f_equal.
    replace (length boxes) with (length boxes + 0) at 1 by lia.
    by rewrite insert_app_r.
Qed.

(** A second [box_select_disable] in a row changes nothing and returns,
    whatever the first one did (returned or raised). *)
Theorem box_select_disable_twice s :
  box_select_disable (state_after (box_select_disable s))
  = (Return (), state_after (box_select_disable s)).
Proof.
  destruct s as [boxes e a idx l h c u]. run.
  destruct a as [[p1 p2 []]|]; simpl; try done.
  destruct idx as [i|]; simpl.
  - destruct (boxes !! i) eqn:Hb; simpl; [rewrite Hb|]; done.
  - by rewrite lookup_app_r, Nat.sub_diag by done.
Qed.

(** One [deselect_active] with the active index inside the list: the box
    there is removed and unloaded, and either the list is empty with no
    active box and no index, or the active index is again inside the list. *)
Lemma deselect_active_step s i b :
  _active_box_index s = Some i →
  _boxes s !! i = Some b →
  let s' := state_after (deselect_active s) in
  _boxes s' = delete i (_boxes s)
  ∧ unloaded s' = unloaded s ++ [b]
  ∧ (_boxes s' = [] ∧ _active_box s' = None ∧ _active_box_index s' = None
       ∧ _last_active_box_index s' = None
     ∨ ∃ i', _active_box_index s' = Some i' ∧ i' < length (_boxes s')).
Proof.
  destruct s as [boxes e a idx l h c u]. simpl. intros -> Hbox.
  assert (Hlen : i < length boxes) by by eapply lookup_lt_Some.
  pose proof (length_delete boxes i (mk_is_Some _ _ Hbox)) as Hdel.
  run. rewrite Hbox. simpl.
  destruct (delete i boxes) as [|b0 rest] eqn:Hrest; simpl.
  { split_and!; try done. by left. }
  simpl in Hdel. case_bool_decide as Hi; simpl.
  - destruct ((b0 :: rest) !! (i - 1)) eqn:Hb'; simpl;
      [|apply lookup_ge_None in Hb'; simpl in Hb'; lia].
    split_and!; try done. right. exists (i - 1). split; [done|lia].
  - assert (i = 0) as -> by lia. simpl.
    split_and!; try done. right. exists 0. split; [done|lia].
Qed.

Lemma deselect_active_times_spec : ∀ n s i,
  length (_boxes s) = n →
  _active_box_index s = Some i →
  i < n →
  let s' := deselect_active_times n s in
  _boxes s' = [] ∧ _active_box s' = None
  ∧ _active_box_index s' = None ∧ _last_active_box_index s' = None
  ∧ unloaded s' ≡ₚ unloaded s ++ _boxes s.
Proof.
  induction n as [|n IH]; intros s i Hlen Hidx Hi; [lia|]. simpl.
  destruct (lookup_lt_is_Some_2 (_boxes s) i) as [b Hb]; [lia|].
  destruct (deselect_active_step s i b Hidx Hb) as (Hboxes & Hun & Hnext).
  pose proof (length_delete _ _ (mk_is_Some _ _ Hb)) as Hdel.
  assert (Hperm : unloaded s ++ _boxes s
            ≡ₚ (unloaded s ++ [b]) ++ delete i (_boxes s)).
  { rewrite <-app_assoc. simpl. apply Permutation_app_head.
    by apply delete_Permutation. }
  destruct Hnext as [(Hnil & Ha & Hi' & Hl)|(i' & Hi' & Hlt)].
  - assert (n = 0) as ->.
    { rewrite Hboxes in Hnil. rewrite Hnil in Hdel. simpl in Hdel. lia. }
    simpl. split_and!; try done.
    rewrite Hperm, Hun, <-Hboxes, Hnil. by rewrite app_nil_r.
  - destruct (IH (state_after (deselect_active s)) i') as (? & ? & ? & ? & Hu);
      [rewrite Hboxes; lia|done|rewrite Hboxes in Hlt; lia|].
    split_and!; try done.
    rewrite Hu, Hun, Hboxes. by rewrite Hperm.
Qed.

(** With the active index inside the list, as many calls of
    [deselect_active] as there are committed boxes empty the list, unload
    every box that was in it, and leave no active box and no index. *)
Theorem deselect_active_empties s i :
  _active_box_index s = Some i →
  i < length (_boxes s) →
  let s' := deselect_active_times (length (_boxes s)) s in
  _boxes s' = [] ∧ _active_box s' = None
  ∧ _active_box_index s' = None ∧ _last_active_box_index s' = None
  ∧ unloaded s' ≡ₚ unloaded s ++ _boxes s.
Proof. intros Hidx Hi. by apply (deselect_active_times_spec _ s i). Qed.

(** From a group with no active box and no committed box, creating a box
    ([box_select_toggle]), committing it ([box_select_toggle]) and
    deselecting it ([deselect_active]) gives back a group with no active
    box, no committed box and no index; the committed box, with both corners
    at the cursor position, has been unloaded. *)
Theorem create_commit_deselect s add1 add2 :
  _active_box s = None →
  _boxes s = [] →
  let A := _cursor_position s in
  deselect_active
    (state_after
       (box_select_toggle add2 (state_after (box_select_toggle add1 s))))
  = (Return (),
     mkGroup [] (_editable s) None None None (_hover_box_index s) A
       (unloaded s ++ [RenderSelection.mk A A])).
Proof. destruct s as [boxes e a idx l h c u]. simpl. intros -> ->. by run. Qed.
End CommitFacts.

Lemma box_select_disable_commits_witness :
  _boxes (state_after (box_select_disable (collab := sample) picking_dynamic))
  = [bx 1; bx 2].
Proof.
  rewrite (box_select_disable_commits (collab := sample) picking_dynamic
             (RenderSelectionEditable.mk (2, 0, 0)%Z (2, 1, 1)%Z true));
    try reflexivity.
  unfold index_ok. simpl. lia.
Defined.

Lemma deselect_active_empties_witness :
  _boxes (deselect_active_times (collab := sample) 2 picking_static) = [].
Proof.
  apply (deselect_active_empties (collab := sample) picking_static 1);
    [reflexivity|simpl; lia].
Defined.

Lemma create_commit_deselect_witness :
  deselect_active (collab := sample)
    (state_after
       (box_select_toggle (collab := sample) false
          (state_after (box_select_toggle (collab := sample) false init))))
  = (Return (),
     mkGroup [] true None None None None (0, 0, 0)%Z
       [RenderSelection.mk (0, 0, 0)%Z (0, 0, 0)%Z]).
Proof.
  apply (create_commit_deselect (collab := sample) init false false);
    reflexivity.
Defined.

(** ** The branches of [box_select_toggle], composed *)

Section ToggleFacts.
Context {collab : Collaborator}.
Implicit Types (s : Group).

(** With a static active box on a committed box and no box under the cursor,
    [box_select_toggle] starts a new dynamic box with both corners at the
    cursor position and no active index.  Without the add modifier it first
    unloads and drops every committed box and forgets the indices; with it,
    the committed boxes stay and the active index is kept as the last active
    one. *)
Theorem box_select_toggle_off_boxes s a i add_modifier :
  _active_box s = Some a →
  RenderSelectionEditable.is_static a = true →
  _active_box_index s = Some i →
  _hover_box_index s = None →
  let A := _cursor_position s in
  box_select_toggle add_modifier s
  = (Return None,
     mkGroup (if add_modifier then _boxes s else []) (_editable s)
       (Some (RenderSelectionEditable.mk A A true)) None
       (if add_modifier then Some i else None) None A
       (if add_modifier then unloaded s
        else unloaded s ++ reverse (_boxes s))).
Proof.
  destruct s as [boxes e a' idx l h c u], a as [p1 p2 dyn].
  unfold RenderSelectionEditable.is_static. simpl.
  intros -> Hst -> ->. destruct dyn; [done|]. run.
  destruct add_modifier; simpl; [done|].
  by rewrite deselect_all_run.
Qed.

(** Starting a new box with the add modifier and cancelling it with
    [deselect_active] brings the active index back but not the static copy:
    the active box stays the new dynamic one, and the next
    [box_select_toggle] writes its corners over the committed box at that
    index. *)
Theorem cancelled_creation_overwrites s a i add_modifier :
  _active_box s = Some a →
  RenderSelectionEditable.is_static a = true →
  _active_box_index s = Some i →
  i < length (_boxes s) →
  _hover_box_index s = None →
  let A := _cursor_position s in
  let cancelled :=
    state_after (deselect_active (state_after (box_select_toggle true s))) in
  let committed := box_select_toggle add_modifier cancelled in
  _boxes cancelled = _boxes s
  ∧ _active_box_index cancelled = Some i
  ∧ _active_box cancelled = Some (RenderSelectionEditable.mk A A true)
  ∧ committed.1 = Return None
  ∧ _boxes (state_after committed) = <[i := RenderSelection.mk A A]> (_boxes s)
  ∧ _active_box (state_after committed)
    = Some (RenderSelectionEditable.mk A A false).
Proof.
  destruct s as [boxes e a' idx l h c u], a as [p1 p2 dyn].
  unfold RenderSelectionEditable.is_static. simpl.
  intros -> Hst -> Hi ->. destruct dyn; [done|]. run.
  destruct (boxes !! i) eqn:Hb; simpl;
    [by rewrite Hb|apply lookup_ge_None in Hb; lia].
Qed.

(** With a static active box and another committed box under the cursor, a
    first [box_select_toggle] makes that box the active one (a static copy of
    it; the active and the last active index are both its position) and a
    second one, the cursor not having moved, unlocks it and returns the
    cursor position.  The committed boxes are the same throughout. *)
Theorem select_then_resume s a j b add1 add2 :
  _active_box s = Some a →
  RenderSelectionEditable.is_static a = true →
  _hover_box_index s = Some j →
  _active_box_index s ≠ Some j →
  _boxes s !! j = Some b →
  let copy :=
    RenderSelectionEditable.mk (RenderSelection.point1 b)
      (RenderSelection.point2 b) false in
  let first := box_select_toggle add1 s in
  let second := box_select_toggle add2 (state_after first) in
  first
  = (Return None,
     with_active_box (Some copy)
       (with_last_active_box_index (Some j)
          (with_active_box_index (Some j) s)))
  ∧ second
    = (Return (Some (_cursor_position s)),
       with_active_box (Some (unlock (_cursor_position s) copy))
         (state_after first)).
Proof.
  destruct s as [boxes e a' idx l h c u], a as [p1 p2 dyn].
  unfold RenderSelectionEditable.is_static. simpl.
  intros -> Hst -> Hne Hb. destruct dyn; [done|]. run.
  case_bool_decide as Hsame; [congruence|]. simpl.
  rewrite Hb. simpl. rewrite bool_decide_true by done. done.
Qed.
End ToggleFacts.

Lemma box_select_toggle_off_boxes_witness :
  _boxes (state_after
            (box_select_toggle (collab := sample) false
               (with_hover_box_index None picking_static)))
  = [].
Proof.
  rewrite (box_select_toggle_off_boxes (collab := sample)
             (with_hover_box_index None picking_static)
             (RenderSelectionEditable.mk (2, 0, 0)%Z (2, 1, 1)%Z false) 1 false);
    reflexivity.
Defined.

Lemma cancelled_creation_overwrites_witness :
  _boxes
    (state_after
       (box_select_toggle (collab := sample) false
          (state_after
             (deselect_active (collab := sample)
                (state_after
                   (box_select_toggle (collab := sample) true
                      (with_cursor_position (9, 9, 9)%Z
                         (with_hover_box_index None picking_static))))))))
  = [bx 1; RenderSelection.mk (9, 9, 9)%Z (9, 9, 9)%Z].
Proof.
  apply (cancelled_creation_overwrites (collab := sample)
           (with_cursor_position (9, 9, 9)%Z
              (with_hover_box_index None picking_static))
           (RenderSelectionEditable.mk (2, 0, 0)%Z (2, 1, 1)%Z false) 1 false);
    try reflexivity.
  simpl. lia.
Defined.

Lemma select_then_resume_witness :
  (box_select_toggle (collab := sample) false
     (state_after
        (box_select_toggle (collab := sample) false
           (with_hover_box_index (Some 0) picking_static)))).1
  = Return (Some (0, 0, 0)%Z).
Proof.
  rewrite (proj2 (select_then_resume (collab := sample)
             (with_hover_box_index (Some 0) picking_static)
             (RenderSelectionEditable.mk (2, 0, 0)%Z (2, 1, 1)%Z false)
             0 (bx 1) false false
             eq_refl eq_refl eq_refl ltac:(discriminate) eq_refl)).
  reflexivity.
Defined.

(** ** Picking and the hover index *)

Section HoverFacts.
Context {collab : Collaborator}.
Implicit Types (s : Group) (origin vector : PointCoordinates).

(** The index [closest_intersection] returns is a position of the list, and
    the box it returns is the box there. *)
Lemma closest_intersection_lookup s origin vector :
  match (closest_intersection s origin vector).1 with
  | Some i =>
      i < length (_boxes s)
      ∧ (closest_intersection s origin vector).2 = _boxes s !! i
      ∧ casts_box s i = true
  | None => (closest_intersection s origin vector).2 = None
  end.
Proof.
  pose proof (closest_run_inv s origin vector) as Hinv.
  unfold closest_intersection, closest_inv in *. simpl.
  destruct (index_return (closest_run s origin vector)) as [i|].
  - destruct Hinv as (b & -> & Hi & (Hl & Hc & _) & _).
    split_and!; [by eapply lookup_lt_Some|done|done].
  - by destruct Hinv as (-> & _).
Qed.

(** While the group is editable and the active box is dynamic, the committed
    box at the active index is never the one [closest_intersection]
    returns. *)
Theorem closest_intersection_not_resized s origin vector a i :
  _editable s = true →
  _active_box s = Some a →
  RenderSelectionEditable.is_dynamic a = true →
  _active_box_index s = Some i →
  (closest_intersection s origin vector).1 ≠ Some i.
Proof.
  intros Hed Ha Hdyn Hidx Hres.
  pose proof (closest_intersection_lookup s origin vector) as Hl.
  rewrite Hres in Hl. destruct Hl as (_ & _ & Hcast).
  assert (casts_box s i = false) as Hskip.
  { apply casts_box_false. split_and!; [done|by exists a|done]. }
  congruence.
Qed.

(** Handing the index [closest_intersection] returns for the current state
    to [update_cursor_position], with a position that fits the integer array
    of the cursor, returns and makes the hover index [None] or a position of
    the list; with the active and the last active index inside the list, the
    public method called next (with a position that fits, if it takes one)
    returns and leaves them inside the list. *)
Theorem hover_from_closest_intersection s origin vector position op :
  position_fits position = true →
  op_fits op = true →
  indices_ok s →
  let update :=
    update_cursor_position position
      (closest_intersection s origin vector).1 s in
  let hovered := state_after update in
  update.1 = Return ()
  ∧ hover_ok hovered ∧ indices_ok hovered
  ∧ returns (run_op op hovered)
  ∧ indices_ok (state_after (run_op op hovered)).
Proof.
  intros Hfits Hop Hidx update hovered.
  assert (Hret : update.1 = Return ()).
  { subst update. destruct s as [boxes e a idx l h c u]. run.
    rewrite Hfits. simpl. by destruct a. }
  pose proof (closest_intersection_lookup s origin vector) as Hl.
  assert (Hboxes : _boxes hovered = _boxes s
            ∧ _active_box_index hovered = _active_box_index s
            ∧ _last_active_box_index hovered = _last_active_box_index s
            ∧ _hover_box_index hovered
              = (closest_intersection s origin vector).1).
  { subst hovered update. destruct s as [boxes e a idx l h c u]. run.
    rewrite Hfits. simpl. by destruct a. }
  destruct Hboxes as (Hb & Ha & Hla & Hh).
  assert (Hhov : hover_ok hovered).
  { unfold hover_ok, index_ok. rewrite Hh, Hb.
    destruct ((closest_intersection s origin vector).1); [|done].
    by destruct Hl. }
  assert (Hidx' : indices_ok hovered).
  { unfold indices_ok, index_ok in *. by rewrite Ha, Hla, Hb. }
  split_and!; [done|done|done|by apply run_op_ok|by apply run_op_ok].
Qed.
End HoverFacts.

Lemma closest_intersection_not_resized_witness :
  (closest_intersection (collab := sample) picking_dynamic ray0 ray0).1
  ≠ Some 1.
Proof.
  apply (closest_intersection_not_resized (collab := sample) picking_dynamic
           ray0 ray0 (RenderSelectionEditable.mk (2, 0, 0)%Z (2, 1, 1)%Z true) 1);
    reflexivity.
Defined.

Lemma hover_from_closest_intersection_witness :
  returns
    (run_op (collab := sample) (BoxSelectToggle false)
       (state_after
          (update_cursor_position (collab := sample) (0, 0, 0)%Z
             (closest_intersection (collab := sample) stale_hover ray0 ray0).1
             stale_hover))).
Proof.
  refine (proj1 (proj2 (proj2 (proj2
            (hover_from_closest_intersection (collab := sample) stale_hover
               ray0 ray0 (0, 0, 0)%Z (BoxSelectToggle false) _ _ _))))).
  - reflexivity.
  - reflexivity.
  - unfold indices_ok, index_ok. simpl. lia.
Defined.

(** ** Calls that change nothing more *)

Section StableFacts.
Context {collab : Collaborator}.
Implicit Types (s : Group).

(** After [deselect_all] the selection is empty and stays so: a further
    [deselect_all], [deselect_active] or [box_select_disable] returns and
    changes nothing. *)
Theorem deselect_all_then_nothing s :
  let cleared := state_after (deselect_all s) in
  deselect_all cleared = (Return (), cleared)
  ∧ deselect_active cleared = (Return (), cleared)
  ∧ box_select_disable cleared = (Return (), cleared).
Proof.
  intros cleared.
  assert (Hcleared : cleared
            = mkGroup [] (_editable s) None None None (_hover_box_index s)
                (_cursor_position s) (unloaded s ++ reverse (_boxes s))).
  { subst cleared. unfold state_after. by rewrite (deselect_all_run s). }
  rewrite Hcleared. split_and!; [|by run|by run].
  rewrite deselect_all_run. simpl. by rewrite app_nil_r.
Qed.

(** Setting [editable] twice to the same value does what setting it once
    does, whether the setter returns or raises. *)
Theorem set_editable_twice s editable :
  set_editable editable (state_after (set_editable editable s))
  = set_editable editable s.
Proof.
  destruct s as [boxes e a idx l h c u]. run.
  destruct editable, idx as [i|]; simpl; try done.
  destruct (boxes !! i) eqn:Hb; simpl; by rewrite Hb.
Qed.
End StableFacts.
